(** * Aggregate flamegraph: the panel and the aggregation engine

    Part 1 embeds [AggregateFlamegraphPanel]
    (static/app/components/profiling/aggregateFlamegraphPanel.tsx): the
    hooks it calls become an explicit environment, and one render becomes a
    record of what the component passes to its children.

    Part 2 models the aggregation engine (frame table, tree aggregator, view
    projector) that the panel delegates to; that code is imported by the
    panel and is not among the sources, so it follows the specification. *)

From stdpp Require Import gmap strings list fin_maps.
From Stdlib Require Import ZArith Lia Ascii.

#[local] Set Warnings "-register-all".
#[local] Open Scope Z_scope.

(** ** Frames *)

(** Modelled from the spec: the [Frame] class (sentry/utils/profiling/frame)
    is imported by the panel but its declaration is not among the sources.
    The fields are those of the spec's Frame value
    [{ name, file, line?, isApplication }]; the classification flag keeps the
    name the panel reads, [is_application]. *)
Record Frame : Type := mkFrame {
  name : string;
  file : string;
  line : option Z;
  is_application : bool
}.

#[global] Instance Frame_eq_dec : EqDecision Frame.
Proof. solve_decision. Defined.

(** [function applicationFrameOnly(frame: Frame): boolean] *)
Definition applicationFrameOnly (frame : Frame) : bool :=
  is_application frame.

(** ** Part 1: the panel *)

Module Panel.

(** The page-filter selection returned by [usePageFilters()]; the panel reads
    [environments], [projects] and [datetime] and passes them on untouched. *)
Record DateTime : Type := mkDateTime {
  period : option string;
  start : option string;
  end_ : option string;
  utc : option bool
}.

Record Selection : Type := mkSelection {
  environments : list string;
  projects : list Z;
  datetime : DateTime
}.

(** The argument object of [useAggregateFlamegraphQuery]. *)
Record QueryParams : Type := mkQueryParams {
  q_transaction : string;
  q_environments : list string;
  q_projects : list Z;
  q_datetime : DateTime
}.

(** The query payload; the panel reads only [data.shared.frames]. *)
Record Shared : Type := mkShared { frames : list Frame }.
Record Schema : Type := mkSchema { shared : Shared }.

(** What the query hook returns: [data] is [None] while it is [undefined]. *)
Record QueryState : Type := mkQueryState {
  data : option Schema;
  isLoading : bool
}.

(** The local-storage key of the preference. *)
Definition collapsed_frames_key : string :=
  "profiling-flamegraph-collapsed-frames".

(** Modelled from the spec: [useLocalStorageState]
    (sentry/utils/useLocalStorageState) is imported by the panel but is not
    among the sources; the spec only says that display preferences are
    persisted locally. The hook is modelled by its call contract: the value
    stored under the key when there is one, the caller's initial value
    otherwise, together with a setter that stores a new value. *)
Definition useLocalStorageState (key : string) (initial : bool)
    (storage : gmap string bool) : bool * (bool → gmap string bool) :=
  (default initial (storage !! key), λ v, <[key := v]> storage).

(** The hooks the component calls, as an explicit environment. *)
Record Hooks : Type := mkHooks {
  usePageFilters : Selection;
  localStorage : gmap string bool;
  useAggregateFlamegraphQuery : QueryParams → QueryState
}.

(** Props of [<ProfileGroupProvider>]. *)
Record ProfileGroupProviderProps : Type := mkProviderProps {
  type : string;
  input : option Schema;
  traceID : string;
  frameFilter : option (Frame → bool)
}.

(** [initialState.preferences] of [<FlamegraphStateProvider>]. *)
Record Preferences : Type := mkPreferences {
  sorting : string;
  view : string
}.

(** The three alternatives rendered inside the panel. *)
Inductive Body : Type :=
| LoadingIndicator (label : string)
| EmptyStateWarning (message : string)
| DeprecatedAggregateFlamegraph
    (hideSystemFrames : bool) (setHideSystemFrames : bool → gmap string bool).

(** One render of the component. *)
Record Rendered : Type := mkRendered {
  query : QueryParams;
  provider : ProfileGroupProviderProps;
  initialState : Preferences;
  body : Body
}.

(** [const isEmpty = data?.shared.frames.length === 0;]
    With [data] undefined the chain yields [undefined], and
    [undefined === 0] is false. *)
Definition isEmpty (data : option Schema) : bool :=
  match data with
  | Some d => Nat.eqb (length (frames (shared d))) 0
  | None => false
  end.

(** [const [hideSystemFrames, setHideSystemFrames] = useLocalStorageState(...)] *)
Definition hideSystemFrames (h : Hooks) : bool :=
  fst (useLocalStorageState collapsed_frames_key true (localStorage h)).

Definition setHideSystemFrames (h : Hooks) : bool → gmap string bool :=
  snd (useLocalStorageState collapsed_frames_key true (localStorage h)).

(** The query arguments built from the prop and the page filters. *)
Definition queryParams (h : Hooks) (transaction : string) : QueryParams :=
  {| q_transaction := transaction;
     q_environments := environments (usePageFilters h);
     q_projects := projects (usePageFilters h);
     q_datetime := datetime (usePageFilters h) |}.

(** [export function AggregateFlamegraphPanel({transaction})] *)
Definition AggregateFlamegraphPanel (h : Hooks) (transaction : string)
    : Rendered :=
  let hide := hideSystemFrames h in
  let set_hide := setHideSystemFrames h in
  let q := queryParams h transaction in
  let st := useAggregateFlamegraphQuery h q in
  {| query := q;
     provider :=
       {| type := "flamegraph";
          input := data st;
          traceID := "";
          frameFilter := if hide then Some applicationFrameOnly else None |};
     initialState := {| sorting := "alphabetical"; view := "bottom up" |};
     body :=
       if isLoading st then LoadingIndicator "Loading Aggregate Flamegraph"
       else if isEmpty (data st) then
         EmptyStateWarning "Aggregate flamegraph isn't available for your query"
       else DeprecatedAggregateFlamegraph hide set_hide |}.

(** The environment after the user calls the setter with [v]: only the
    stored preference changes. *)
Definition toggled (h : Hooks) (v : bool) : Hooks :=
  {| usePageFilters := usePageFilters h;
     localStorage := setHideSystemFrames h v;
     useAggregateFlamegraphQuery := useAggregateFlamegraphQuery h |}.

(** A small environment used to exercise the statements below: nothing is
    stored, and the query has completed with the given payload. *)
Definition no_selection : Selection :=
  {| environments := []; projects := [];
     datetime := {| period := Some "14d"; start := None; end_ := None;
                    utc := None |} |}.

Definition completed_with (payload : option Schema) : Hooks :=
  {| usePageFilters := no_selection;
     localStorage := ∅;
     useAggregateFlamegraphQuery :=
       λ _, {| data := payload; isLoading := false |} |}.

Definition still_loading : Hooks :=
  {| usePageFilters := no_selection;
     localStorage := ∅;
     useAggregateFlamegraphQuery :=
       λ _, {| data := None; isLoading := true |} |}.

Definition no_frames : Schema := {| shared := {| frames := [] |} |}.

Definition one_frame : Schema :=
  {| shared := {| frames := [mkFrame "main" "app.py" (Some 1) true] |} |}.

End Panel.

(** ** Part 2: the aggregation engine *)

Module Orientation.
Inductive t : Type := topDown | bottomUp.
End Orientation.

Module Sort.
Inductive t : Type := alphabetical | weight.
End Sort.

Module Engine.

(** Frame ids are the stable integers issued by the frame table. *)
Abbreviation FrameId := nat (only parsing).

(** *** Frame table *)

(** Modelled from the spec: the Frame Table (section 4.1) is not among the
    sources. It is an append-only registry; the id of a frame is its position,
    so ids are stable and nothing is ever removed. [intern] returns the id of
    a structurally identical frame, or allocates the next one. *)
Definition intern (table : list Frame) (fr : Frame) : FrameId * list Frame :=
  match list_find (λ x, x = fr) table with
  | Some (i, _) => (i, table)
  | None => (length table, table ++ [fr])
  end.

Definition frame_of (table : list Frame) (id : FrameId) : option Frame :=
  table !! id.

(** *** Samples *)

(** Modelled from the spec: a sample weight as it arrives from the query
    layer. Finite weights are exact numbers, modelled as integers (sample
    counts, or durations in the profile's unit); the three other values are
    the non-finite numbers a JavaScript number can hold. *)
Inductive Weight : Type :=
| Finite (z : Z)
| NaN
| PosInfinity
| NegInfinity.

(** Modelled from the spec: a normalized sample [(FrameId[] stackPath, weight)],
    root to leaf (section 4.2). *)
Record Sample : Type := mkSample {
  stackPath : list FrameId;
  weight : Weight
}.

Definition is_finite (w : Weight) : bool :=
  match w with Finite _ => true | _ => false end.

Definition weight_value (w : Weight) : Z :=
  match w with Finite z => z | _ => 0 end.

(** Modelled from the spec: [MalformedSample] (section 7) is a non-finite or
    negative weight, or an empty stack. *)
Definition malformed (s : Sample) : bool :=
  negb (is_finite (weight s))
  || (weight_value (weight s) <? 0)
  || Nat.eqb (length (stackPath s)) 0.

(** *** The weighted call tree *)

(** Modelled from the spec: a Tree Node (section 3): frame id (none for the
    implicit root), [selfWeight], [totalWeight] and the children as a mapping
    from frame id to child node. Sibling insertion order carries no meaning in
    the spec, so the mapping is a finite map. The parent back-reference serves
    navigation only and is not stored: a node is identified by its path. *)
Inductive Node : Type := mkNode {
  frame : option FrameId;
  selfWeight : Z;
  totalWeight : Z;
  children : gmap FrameId Node
}.

Definition rootNode : Node := mkNode None 0 0 ∅.
Definition newNode (f : FrameId) : Node := mkNode (Some f) 0 0 ∅.

(** Modelled from the spec: one step of the streaming fold of section 4.3.
    Descend along the stack path, inserting child nodes for frame ids not yet
    present at that position; every node on the path (the root included) gains
    the weight in [totalWeight], the terminal node also in [selfWeight]. *)
Fixpoint insert_path (path : list FrameId) (w : Z) (n : Node) : Node :=
  match path with
  | [] => mkNode (frame n) (selfWeight n + w) (totalWeight n + w) (children n)
  | f :: rest =>
      mkNode (frame n) (selfWeight n) (totalWeight n + w)
        (<[f := insert_path rest w (default (newNode f) (children n !! f))]>
           (children n))
  end.

(** Modelled from the spec: the diagnostics of an aggregation result report
    each rejected sample. *)
Inductive Diagnostic : Type :=
| MalformedSample (s : Sample).

Record AggregationResult : Type := mkResult {
  tree : Node;
  diagnostics : list Diagnostic
}.

(** Modelled from the spec: a malformed sample is rejected and reported, any
    other sample is merged into the tree. *)
Definition ingest (r : AggregationResult) (s : Sample) : AggregationResult :=
  if malformed s then
    {| tree := tree r; diagnostics := diagnostics r ++ [MalformedSample s] |}
  else
    {| tree := insert_path (stackPath s) (weight_value (weight s)) (tree r);
       diagnostics := diagnostics r |}.

(** Modelled from the spec: [aggregate(samples) -> Tree] (section 4.3), a
    left-to-right fold from the implicit root. The optional caps [maxDepth]
    and [maxNodes] are absent here: the spec leaves the truncation policy
    open, and the modelled aggregator never truncates. *)
Definition aggregate (samples : list Sample) : AggregationResult :=
  foldl ingest {| tree := rootNode; diagnostics := [] |} samples.

(** The sum of the weights of the accepted samples. *)
Definition accepted_weight (samples : list Sample) : Z :=
  foldr (λ s acc, if malformed s then acc else weight_value (weight s) + acc)
        0 samples.

(** The sum of the total weights of a family of siblings, and of the
    children of a node. *)
Definition sum_total (m : gmap FrameId Node) : Z :=
  map_fold (λ _ c acc, totalWeight c + acc) 0 m.

Definition children_total (n : Node) : Z :=
  sum_total (children n).

(** [node_of n t]: [n] is a node of the tree rooted at [t]. *)
Inductive node_of : Node → Node → Prop :=
| node_of_root t : node_of t t
| node_of_child t f c n :
    children t !! f = Some c → node_of n c → node_of n t.

(** The invariant of section 3 at one node, and at every node of a tree. *)
Definition weight_inv (n : Node) : Prop :=
  totalWeight n = selfWeight n + children_total n.

Inductive wf : Node → Prop :=
| wf_node n :
    weight_inv n →
    (∀ f c, children n !! f = Some c → wf c) →
    wf n.

(** *** View projector *)

(** Modelled from the spec: the options of [project] (section 4.4). *)
Record ProjectOptions : Type := mkOptions {
  orientation : Orientation.t;
  sort : Sort.t;
  frameFilter : option (Frame → bool)
}.

(** Modelled from the spec: a re-aggregation walk. Every node of [n] is
    visited with its path from the root and [place] decides where its own
    weight lands in the tree under construction. *)
Fixpoint regroup (place : list FrameId → Node → Node → Node)
    (path : list FrameId) (n : Node) (out : Node) : Node :=
  map_fold (λ f c acc, regroup place (path ++ [f]) c acc)
           (place path n out) (children n).

(** Whether the frame behind an id passes the filter; an id the table never
    issued has no frame to test and fails it. *)
Definition passes (table : list Frame) (keep : Frame → bool) (id : FrameId)
    : bool :=
  match frame_of table id with
  | Some fr => keep fr
  | None => false
  end.

(** The surviving part of a path: the frames that pass the filter. *)
Definition surviving (table : list Frame) (keep : Frame → bool)
    (path : list FrameId) : list FrameId :=
  filter (λ id, passes table keep id = true) path.

(** Modelled from the spec: [frameFilter] (section 4.4). A node whose frame
    fails the predicate is elided and its weight is folded into the
    [selfWeight] of the nearest surviving ancestor, or of the root when none
    survives: the weight of the node at [path] lands at the surviving part
    of [path]. *)
Definition elide (table : list Frame) (keep : Frame → bool) (t : Node) : Node :=
  regroup (λ path n out,
             insert_path (surviving table keep path) (selfWeight n) out)
          [] t rootNode.

(** A node at which some sample path ends: a leaf of the tree, or a node
    with weight of its own. *)
Definition terminal (n : Node) : bool :=
  Nat.eqb (size (children n)) 0 || negb (selfWeight n =? 0).

(** Modelled from the spec: [bottomUp] (section 4.4), a second aggregation
    pass over the reversed paths; identical reversed prefixes merge as in
    aggregation. *)
Definition invert (t : Node) : Node :=
  regroup (λ path n out,
             if terminal n then insert_path (rev path) (selfWeight n) out
             else out)
          [] t rootNode.

(** Modelled from the spec: a node of the projected view, with its siblings
    in display order. *)
Inductive ViewNode : Type := mkView {
  vframe : option FrameId;
  vself : Z;
  vtotal : Z;
  vchildren : list ViewNode
}.

Definition to_lower (c : ascii) : ascii :=
  let n := nat_of_ascii c in
  if (Nat.leb 65 n && Nat.leb n 90)%bool then ascii_of_nat (n + 32) else c.

Fixpoint lower (s : string) : string :=
  match s with
  | EmptyString => EmptyString
  | String c s' => String (to_lower c) (lower s')
  end.

Definition name_of (table : list Frame) (id : FrameId) : string :=
  match frame_of table id with
  | Some fr => name fr
  | None => EmptyString
  end.

(** Modelled from the spec: [sort] (section 4.4). [alphabetical] orders
    siblings by frame name, case-insensitive; [weight] by descending
    [totalWeight]; ties are broken by frame id. *)
Definition sibling_leb (table : list Frame) (s : Sort.t)
    (a b : FrameId * ViewNode) : bool :=
  match s with
  | Sort.alphabetical =>
      match String.compare (lower (name_of table a.1))
                           (lower (name_of table b.1)) with
      | Lt => true
      | Gt => false
      | Eq => Nat.leb a.1 b.1
      end
  | Sort.weight =>
      if vtotal b.2 <? vtotal a.2 then true
      else if vtotal a.2 <? vtotal b.2 then false
      else Nat.leb a.1 b.1
  end.

Fixpoint insert_sorted {A} (leb : A → A → bool) (x : A) (l : list A) : list A :=
  match l with
  | [] => [x]
  | y :: l' => if leb x y then x :: l else y :: insert_sorted leb x l'
  end.

Definition sort_by {A} (leb : A → A → bool) (l : list A) : list A :=
  foldr (insert_sorted leb) [] l.

Fixpoint to_view (table : list Frame) (s : Sort.t) (n : Node) : ViewNode :=
  mkView (frame n) (selfWeight n) (totalWeight n)
    (snd <$> sort_by (sibling_leb table s)
                     (map_to_list (to_view table s <$> children n))).

(** Modelled from the spec: [project(tree, options)] (section 4.4). The view
    is returned as its root: the [ViewNode[]] of the contract is the root's
    ordered list of children, and the root carries the total weight and the
    weight folded into it. The aggregated tree is an argument, never
    modified. *)
Definition project (table : list Frame) (t : Node) (o : ProjectOptions)
    : ViewNode :=
  let filtered :=
    match frameFilter o with
    | Some keep => elide table keep t
    | None => t
    end in
  let oriented :=
    match orientation o with
    | Orientation.topDown => filtered
    | Orientation.bottomUp => invert filtered
    end in
  to_view table (sort o) oriented.

(** *** Looking inside a tree *)

(** The own weight of the node at a path (root to node), zero where the tree
    has no such node. *)
Fixpoint self_at (path : list FrameId) (n : Node) : Z :=
  match path with
  | [] => selfWeight n
  | f :: rest =>
      match children n !! f with
      | Some c => self_at rest c
      | None => 0
      end
  end.

(** Every node of a tree with its path, the tree being rooted at [path]. *)
Fixpoint nodes_of (path : list FrameId) (n : Node)
    : list (list FrameId * Node) :=
  (path, n)
  :: map_fold (λ f c acc, nodes_of (path ++ [f]) c ++ acc) [] (children n).

(** The own weight of the nodes whose surviving path is [q]: the node at [q]
    itself when it survives, and the elided nodes whose nearest surviving
    ancestor it is (the root for [q = []]). *)
Definition landing_at (table : list Frame) (keep : Frame → bool)
    (q : list FrameId) (nodes : list (list FrameId * Node)) : Z :=
  foldr (λ pn acc,
           (if decide (surviving table keep pn.1 = q)
            then selfWeight pn.2 else 0) + acc)
        0 nodes.

(** Every node below [n] sits under its own frame id, and that id
    satisfies [P]. *)
Inductive frames_all (P : FrameId → Prop) : Node → Prop :=
| frames_all_node n :
    (∀ f c, children n !! f = Some c →
            frame c = Some f ∧ P f ∧ frames_all P c) →
    frames_all P n.

(** A small batch used to exercise the statements below: frames 0, 1, 2 and
    3 stand for A, B, C and D; the last three samples are malformed. *)
Definition path_samples : list Sample :=
  [ mkSample [0; 1; 2]%nat (Finite 1);
    mkSample [0; 1; 3]%nat (Finite 2);
    mkSample [] (Finite 5);
    mkSample [0; 1]%nat NaN;
    mkSample [4]%nat (Finite (-7)) ].

(** A frame table for the examples: [main] and [render] are application
    frames, [poll] is a system frame. *)
Definition app_table : list Frame :=
  [ mkFrame "main" "app.py" (Some 1) true;
    mkFrame "poll" "selectors.py" (Some 40) false;
    mkFrame "render" "views.py" (Some 7) true ].

End Engine.

(** ** Part 3: the setup-sentry action

    The composite action that follows the panel in the same source file
    (name: 'Sentry Setup') runs bash scripts with
    [bash --noprofile --norc -eo pipefail -ux]. Two of its steps are
    embedded: a script is a function on the state of its shell, and a
    command runs only while the script has not exited. *)

Module SetupSentry.

(** The state of one run of a step script: the lines appended to
    [$GITHUB_ENV], the lines written to standard output, the bash array
    [services], the argument lists [sentry devservices up] was called with,
    and the exit status once the script has stopped. *)
Record Shell : Type := mkShell {
  github_env : list string;
  stdout : list string;
  services : list string;
  started : list (list string);
  status : option nat
}.

Definition fresh_shell : Shell := mkShell [] [] [] [] None.

Definition Script : Type := Shell → Shell.

(** A command runs only while the script has not stopped. *)
Definition running (c : Script) : Script :=
  λ s, match status s with Some _ => s | None => c s end.

(** [echo "line" >> $GITHUB_ENV] *)
Definition export_line (line : string) : Script :=
  running (λ s, mkShell (github_env s ++ [line]) (stdout s) (services s)
                        (started s) (status s)).

(** [echo "line"] *)
Definition echo (line : string) : Script :=
  running (λ s, mkShell (github_env s) (stdout s ++ [line]) (services s)
                        (started s) (status s)).

(** [exit n] *)
Definition exit (n : nat) : Script :=
  running (λ s, mkShell (github_env s) (stdout s) (services s) (started s)
                        (Some n)).

(** An external command with exit status [st]; the shell runs with [-e], so
    a status other than zero stops the script with it. *)
Definition external (st : nat) : Script :=
  running (λ s, match st with
                | O => s
                | S _ => mkShell (github_env s) (stdout s) (services s)
                                 (started s) (Some st)
                end).

(** [services=(...)] and [services+=(...)] *)
Definition services_set (l : list string) : Script :=
  running (λ s, mkShell (github_env s) (stdout s) l (started s) (status s)).

Definition services_add (l : list string) : Script :=
  running (λ s, mkShell (github_env s) (stdout s) (services s ++ l)
                        (started s) (status s)).

Definition then_ (c1 c2 : Script) : Script := λ s, c2 (c1 s).
Declare Scope script_scope.
Delimit Scope script_scope with script.
Bind Scope script_scope with Script.
Notation "c1 ;; c2" := (then_ c1 c2)
  (at level 100, c2 at level 200, right associativity) : script_scope.
#[local] Open Scope script_scope.

(** [if b; then c; fi], the test being on the environment. *)
Definition when (b : bool) (c : Script) : Script :=
  running (λ s, if b then c s else s).

(** The exit status of a step: that of [exit] or of the failing command,
    zero when the script ran to its end. *)
Definition exit_status (s : Shell) : nat := default 0%nat (status s).

(** [[ "$x" ]]: true for a string that is not empty. *)
Definition nonempty (x : string) : bool :=
  match x with EmptyString => false | String _ _ => true end.

(** *** Step "Setup default environment variables" *)

Record SetupEnv : Type := mkSetupEnv {
  MATRIX_INSTANCE : string;
  MATRIX_INSTANCE_TOTAL : option string;
  GITHUB_REPOSITORY : string;
  GITHUB_REF : string;
  GITHUB_SHA : string
}.

Definition setup_default_environment (e : SetupEnv) : Script :=
  export_line "PIP_DISABLE_PIP_VERSION_CHECK=on" ;;
  export_line "PIP_INDEX_URL=https://pypi.devinfra.sentry.io/simple" ;;
  export_line "SENTRY_SKIP_BACKEND_VALIDATION=1" ;;
  export_line "NODE_ENV=development" ;;
  export_line "PY_COLORS=1" ;;
  export_line "PYTEST_ADDOPTS=--reruns=5 --durations=10 --fail-slow=60s" ;;
  when (String.eqb (GITHUB_REPOSITORY e) "getsentry/sentry")
    (export_line "PYTEST_SENTRY_DSN=https://6fd5cfea2d4d46b182ad214ac7810508@sentry.io/2423079" ;;
     export_line "PYTEST_SENTRY_TRACES_SAMPLE_RATE=0" ;;
     when (String.eqb (GITHUB_REF e) "refs/heads/master")
       (export_line "PYTEST_SENTRY_ALWAYS_REPORT=1")) ;;
  export_line ("SENTRY_RELEASE=ci@" +:+ GITHUB_SHA e) ;;
  when (nonempty (MATRIX_INSTANCE e))
    (when (negb (nonempty (default EmptyString (MATRIX_INSTANCE_TOTAL e))))
       (echo "MATRIX_INSTANCE_TOTAL is required." ;;
        exit 1) ;;
     export_line ("TEST_GROUP=" +:+ MATRIX_INSTANCE e) ;;
     export_line ("TOTAL_TEST_GROUPS="
                  +:+ default EmptyString (MATRIX_INSTANCE_TOTAL e))).

(** *** Step "Start devservices" *)

Record DevservicesEnv : Type := mkDevservicesEnv {
  NEED_KAFKA : string;
  NEED_SNUBA : string;
  NEED_CLICKHOUSE : string;
  NEED_BIGTABLE : string;
  NEED_CHARTCUTERIE : string;
  NEED_SYMBOLICATOR : string
}.

(** What the external commands of the step answer: their exit statuses, and
    the gateway address printed by [docker network inspect]. *)
Record Commands : Type := mkCommands {
  sentry_init : nat;
  sentry_devservices_up : nat;
  docker_gateway : string;
  docker_ps : nat;
  cd_workdir : nat
}.

(** [sentry devservices up "${services[@]}"] *)
Definition devservices_up (st : nat) : Script :=
  running (λ s, external st (mkShell (github_env s) (stdout s) (services s)
                                     (started s ++ [services s]) (status s))).

Definition start_devservices (e : DevservicesEnv) (x : Commands) : Script :=
  external (sentry_init x) ;;
  services_set ["redis"; "postgres"] ;;
  when (String.eqb (NEED_CLICKHOUSE e) "true"
        || String.eqb (NEED_SNUBA e) "true")
    (services_add ["clickhouse"]) ;;
  when (String.eqb (NEED_SNUBA e) "true")
    (services_add ["snuba"]) ;;
  when (String.eqb (NEED_BIGTABLE e) "true")
    (export_line "BIGTABLE_EMULATOR_HOST=127.0.0.1:8086" ;;
     services_add ["bigtable"]) ;;
  when (String.eqb (NEED_CHARTCUTERIE e) "true")
    (services_add ["chartcuterie"]) ;;
  when (String.eqb (NEED_SYMBOLICATOR e) "true")
    (services_add ["symbolicator"]) ;;
  when (String.eqb (NEED_KAFKA e) "true")
    (services_add ["kafka"]) ;;
  devservices_up (sentry_devservices_up x) ;;
  export_line ("DJANGO_LIVE_TEST_SERVER_ADDRESS=" +:+ docker_gateway x) ;;
  external (docker_ps x) ;;
  external (cd_workdir x).

(** *** Reading the environment file *)

(** The name set by a line [NAME=value] of the environment file: what
    precedes the first [=]. *)
Fixpoint line_name (line : string) : string :=
  match line with
  | EmptyString => EmptyString
  | String c rest =>
      if Ascii.eqb c "="%char then EmptyString else String c (line_name rest)
  end.

(** The order in which the step can append services. *)
Definition service_order : list string :=
  ["redis"; "postgres"; "clickhouse"; "snuba"; "bigtable"; "chartcuterie";
   "symbolicator"; "kafka"].

(** The environment the codecov-ats workflow gives the action
    ([snuba: true], [bigtable: true], the other inputs at their default
    ['false']), external commands that all succeed, and one sharded run. *)
Definition codecov_ats_env : DevservicesEnv :=
  {| NEED_KAFKA := "false"; NEED_SNUBA := "true"; NEED_CLICKHOUSE := "false";
     NEED_BIGTABLE := "true"; NEED_CHARTCUTERIE := "false";
     NEED_SYMBOLICATOR := "false" |}.

Definition all_succeed : Commands :=
  {| sentry_init := 0%nat; sentry_devservices_up := 0%nat;
     docker_gateway := "172.17.0.1"; docker_ps := 0%nat;
     cd_workdir := 0%nat |}.

Definition init_fails : Commands :=
  {| sentry_init := 1%nat; sentry_devservices_up := 0%nat;
     docker_gateway := "172.17.0.1"; docker_ps := 0%nat;
     cd_workdir := 0%nat |}.

End SetupSentry.

(** * Properties *)

(** ** The panel *)

Section PanelProperties.
Import Panel.

Lemma isEmpty_Some (d : Schema) :
  isEmpty (Some d) = true ↔ length (frames (shared d)) = 0%nat.
Proof. simpl. apply Nat.eqb_eq. Qed.

(** C1: once the query is no longer loading and has returned a result, the
    panel shows the empty-state message exactly when the result's shared
    frames list has length zero, and the flamegraph otherwise; while the query
    is loading the loading indicator is shown whatever the emptiness test
    says. *)
Theorem empty_state_iff_no_shared_frames (h : Hooks) (transaction : string) :
  let st := useAggregateFlamegraphQuery h (queryParams h transaction) in
  let r := AggregateFlamegraphPanel h transaction in
  (isLoading st = true →
     body r = LoadingIndicator "Loading Aggregate Flamegraph") ∧
  (isLoading st = false → ∀ d, data st = Some d →
     (isEmpty (data st) = true ↔ length (frames (shared d)) = 0%nat) ∧
     (length (frames (shared d)) = 0%nat ↔
        body r = EmptyStateWarning
                   "Aggregate flamegraph isn't available for your query") ∧
     (length (frames (shared d)) ≠ 0%nat ↔
        body r = DeprecatedAggregateFlamegraph
                   (hideSystemFrames h) (setHideSystemFrames h))).
Proof.
  intros st r. subst r. unfold AggregateFlamegraphPanel. cbn zeta.
  fold st. split.
  - intros ->. reflexivity.
  - intros Hl d Hd. cbn [body]. rewrite Hl, Hd.
    pose proof (isEmpty_Some d) as He.
    destruct (isEmpty (Some d)) eqn:E.
    + assert (length (frames (shared d)) = 0%nat) as H0 by (apply He; done).
      repeat split; try done; intros; congruence.
    + assert (length (frames (shared d)) ≠ 0%nat) as H0.
      { intros H0. apply He in H0. discriminate. }
      repeat split; try done; intros; congruence.
Qed.

Lemma empty_state_iff_no_shared_frames_witness :
  body (AggregateFlamegraphPanel still_loading "/api/checkout")
    = LoadingIndicator "Loading Aggregate Flamegraph"
  ∧ body (AggregateFlamegraphPanel (completed_with (Some no_frames))
                                   "/api/checkout")
    = EmptyStateWarning "Aggregate flamegraph isn't available for your query".
Proof.
  split.
  - apply (proj1 (empty_state_iff_no_shared_frames still_loading
                    "/api/checkout")).
    reflexivity.
  - apply (proj2 (empty_state_iff_no_shared_frames
                    (completed_with (Some no_frames)) "/api/checkout")
                 eq_refl no_frames eq_refl).
    reflexivity.
Defined.

(** C2, as the specification states it, fails: with nothing stored the
    preference is not [false] and a frame filter is passed. *)
Lemma default_filter_disabled_fails :
  ¬ (∀ (h : Hooks) (transaction : string),
       localStorage h !! collapsed_frames_key = None →
       hideSystemFrames h = false ∧
       frameFilter (provider (AggregateFlamegraphPanel h transaction)) = None).
Proof.
  intros H.
  destruct (H (completed_with (Some one_frame)) "/api/checkout" eq_refl)
    as [Hhide _].
  discriminate Hhide.
Qed.

(** C2 (amended): on first load, with no stored preference,
    [hideSystemFrames] takes the initial value [true] given by the panel, so
    the application-frames-only filter is enabled by default and
    [applicationFrameOnly] is the frame filter passed to the profile-group
    provider. *)
Theorem default_filter_enabled (h : Hooks) (transaction : string) :
  localStorage h !! collapsed_frames_key = None →
  hideSystemFrames h = true ∧
  frameFilter (provider (AggregateFlamegraphPanel h transaction))
    = Some applicationFrameOnly.
Proof.
  intros Hnone.
  assert (hideSystemFrames h = true) as Hh.
  { unfold hideSystemFrames, useLocalStorageState. cbn [fst].
    rewrite Hnone. reflexivity. }
  split; [exact Hh|].
  unfold AggregateFlamegraphPanel. cbn [provider frameFilter].
  rewrite Hh. reflexivity.
Qed.

Lemma default_filter_enabled_witness :
  hideSystemFrames (completed_with (Some one_frame)) = true ∧
  frameFilter (provider (AggregateFlamegraphPanel
                           (completed_with (Some one_frame)) "/api/checkout"))
    = Some applicationFrameOnly.
Proof.
  apply (default_filter_enabled (completed_with (Some one_frame))
           "/api/checkout").
  reflexivity.
Defined.

(** A stored preference is what the hook returns. *)
Lemma hideSystemFrames_stored (h : Hooks) (v : bool) :
  localStorage h !! collapsed_frames_key = Some v → hideSystemFrames h = v.
Proof.
  intros Hs. unfold hideSystemFrames, useLocalStorageState. cbn [fst].
  rewrite Hs. reflexivity.
Qed.

Lemma hideSystemFrames_toggled (h : Hooks) (v : bool) :
  hideSystemFrames (toggled h v) = v.
Proof.
  apply hideSystemFrames_stored. unfold toggled, setHideSystemFrames.
  cbn. apply lookup_insert_eq.
Qed.

(** C3: with the filter enabled, the predicate passed to the profile-group
    provider accepts a frame exactly when its [is_application] flag is true;
    with the filter disabled no predicate is passed. *)
Theorem frame_filter_is_application_flag (h : Hooks) (transaction : string) :
  let r := AggregateFlamegraphPanel h transaction in
  (hideSystemFrames h = true →
     ∃ keep, frameFilter (provider r) = Some keep ∧
             ∀ fr : Frame, keep fr = true ↔ is_application fr = true) ∧
  (hideSystemFrames h = false → frameFilter (provider r) = None).
Proof.
  intros r. subst r. unfold AggregateFlamegraphPanel.
  cbn [provider frameFilter]. split; intros ->.
  - exists applicationFrameOnly. split; [reflexivity|].
    intros fr. unfold applicationFrameOnly. reflexivity.
  - reflexivity.
Qed.

Lemma frame_filter_is_application_flag_witness :
  (∃ keep,
     frameFilter (provider (AggregateFlamegraphPanel
                              (completed_with (Some one_frame))
                              "/api/checkout")) = Some keep ∧
     ∀ fr : Frame, keep fr = true ↔ is_application fr = true) ∧
  frameFilter (provider (AggregateFlamegraphPanel
                           (toggled (completed_with (Some one_frame)) false)
                           "/api/checkout")) = None.
Proof.
  split.
  - apply (proj1 (frame_filter_is_application_flag
                    (completed_with (Some one_frame)) "/api/checkout")).
    reflexivity.
  - apply (proj2 (frame_filter_is_application_flag
                    (toggled (completed_with (Some one_frame)) false)
                    "/api/checkout")).
    reflexivity.
Defined.

(** The query arguments do not read the stored preference. *)
Lemma queryParams_toggles (h : Hooks) (vs : list bool) (transaction : string) :
  queryParams (foldl toggled h vs) transaction = queryParams h transaction.
Proof.
  revert h. induction vs as [|v vs IH]; intros h; [reflexivity|].
  cbn [foldl]. rewrite IH. reflexivity.
Qed.

Lemma query_hook_toggles (h : Hooks) (vs : list bool) :
  useAggregateFlamegraphQuery (foldl toggled h vs)
    = useAggregateFlamegraphQuery h.
Proof.
  revert h. induction vs as [|v vs IH]; intros h; [reflexivity|].
  cbn [foldl]. rewrite IH. reflexivity.
Qed.

(** C4: the query is parameterized by the transaction, the environments, the
    projects and the datetime only. After any sequence of filter toggles the
    query arguments, the query state and the input handed to the
    profile-group provider are what they were; only the frame filter, hence
    the projection, follows the last toggle. *)
Theorem filter_toggle_keeps_query (h : Hooks) (transaction : string)
    (vs : list bool) (v : bool) :
  let before := AggregateFlamegraphPanel h transaction in
  let after := AggregateFlamegraphPanel (foldl toggled h (vs ++ [v]))
                                        transaction in
  query before =
    {| q_transaction := transaction;
       q_environments := environments (usePageFilters h);
       q_projects := projects (usePageFilters h);
       q_datetime := datetime (usePageFilters h) |} ∧
  query after = query before ∧
  useAggregateFlamegraphQuery (foldl toggled h (vs ++ [v])) (query after)
    = useAggregateFlamegraphQuery h (query before) ∧
  input (provider after) = input (provider before) ∧
  frameFilter (provider after)
    = if v then Some applicationFrameOnly else None.
Proof.
  intros before after. subst before after.
  unfold AggregateFlamegraphPanel. cbn [query provider input frameFilter].
  rewrite queryParams_toggles, query_hook_toggles.
  repeat split.
  rewrite foldl_snoc, hideSystemFrames_toggled. reflexivity.
Qed.

(** C5: the initial navigation state set by the panel sorts alphabetically
    and starts in the bottom-up view (not top-down). *)
Theorem initial_preferences (h : Hooks) (transaction : string) :
  let p := initialState (AggregateFlamegraphPanel h transaction) in
  sorting p = "alphabetical" ∧ view p = "bottom up" ∧ view p ≠ "top down".
Proof. cbn. repeat split. discriminate. Qed.

(** C10: when the query has finished loading without a result object, the
    emptiness test is false, the flamegraph branch is rendered and the
    provider receives no input; the empty state is rendered only for a
    result object whose shared frames list has length zero. *)
Theorem absent_result_is_not_empty (h : Hooks) (transaction : string) :
  let st := useAggregateFlamegraphQuery h (queryParams h transaction) in
  let r := AggregateFlamegraphPanel h transaction in
  (isLoading st = false → data st = None →
     isEmpty (data st) = false ∧
     body r = DeprecatedAggregateFlamegraph
                (hideSystemFrames h) (setHideSystemFrames h) ∧
     input (provider r) = None) ∧
  (∀ message, body r = EmptyStateWarning message →
     isLoading st = false ∧
     ∃ d, data st = Some d ∧ length (frames (shared d)) = 0%nat).
Proof.
  intros st r. subst r. unfold AggregateFlamegraphPanel. cbn zeta.
  fold st. cbn [body provider input]. split.
  - intros Hl Hd. rewrite Hl, Hd. repeat split.
  - intros message Hb. destruct (isLoading st); [discriminate|].
    split; [reflexivity|].
    destruct (data st) as [d|]; [|discriminate].
    exists d. split; [reflexivity|]. apply isEmpty_Some.
    destruct (isEmpty (Some d)); [reflexivity|discriminate].
Qed.

Lemma absent_result_is_not_empty_witness :
  (isEmpty None = false ∧
   body (AggregateFlamegraphPanel (completed_with None) "/api/checkout")
     = DeprecatedAggregateFlamegraph
         (hideSystemFrames (completed_with None))
         (setHideSystemFrames (completed_with None)) ∧
   input (provider (AggregateFlamegraphPanel (completed_with None)
                                             "/api/checkout")) = None) ∧
  ∃ d, Some no_frames = Some d ∧ length (frames (shared d)) = 0%nat.
Proof.
  split.
  - apply (proj1 (absent_result_is_not_empty (completed_with None)
                    "/api/checkout")); reflexivity.
  - apply (proj2 (absent_result_is_not_empty
                    (completed_with (Some no_frames)) "/api/checkout")
                 "Aggregate flamegraph isn't available for your query").
    reflexivity.
Defined.

End PanelProperties.

(** ** The aggregation engine *)

Section EngineProperties.
Import Engine.

(** *** Frame table *)

(** The id returned by [intern] resolves to the frame interned. *)
Lemma intern_lookup (table : list Frame) (fr : Frame) :
  frame_of (intern table fr).2 (intern table fr).1 = Some fr.
Proof.
  unfold intern, frame_of.
  destruct (list_find (λ x, x = fr) table) as [[i x]|] eqn:E; cbn [fst snd].
  - apply list_find_Some in E as (Hi & -> & _). exact Hi.
  - apply list_lookup_middle. reflexivity.
Qed.

(** Interning a frame again returns the same id and allocates nothing. *)
Lemma intern_again (table : list Frame) (fr : Frame) :
  intern (intern table fr).2 fr = intern table fr.
Proof.
  unfold intern at 2 3.
  destruct (list_find (λ x, x = fr) table) as [[i x]|] eqn:E; cbn [fst snd].
  - unfold intern. rewrite E. reflexivity.
  - unfold intern.
    assert (list_find (λ x, x = fr) (table ++ [fr])
            = Some (length table, fr)) as ->; [|reflexivity].
    apply list_find_Some. split; [by apply list_lookup_middle|].
    split; [reflexivity|]. intros j y Hj Hlt.
    rewrite lookup_app_l in Hj by exact Hlt.
    apply list_find_None in E. rewrite Forall_forall in E.
    apply E. eapply list_elem_of_lookup_2, Hj.
Qed.

(** Ids already issued keep their frame. *)
Lemma intern_keeps (table : list Frame) (fr fr' : Frame) (id : nat) :
  frame_of table id = Some fr' → frame_of (intern table fr).2 id = Some fr'.
Proof.
  unfold intern, frame_of. intros Hid.
  destruct (list_find (λ x, x = fr) table) as [[i x]|]; cbn [snd];
    [exact Hid|].
  by apply lookup_app_l_Some.
Qed.

(** *** Sums of children weights *)

Lemma sum_total_empty : sum_total ∅ = 0.
Proof. apply map_fold_empty. Qed.

Lemma sum_total_insert_fresh (m : gmap nat Node) f c :
  m !! f = None → sum_total (<[f := c]> m) = totalWeight c + sum_total m.
Proof.
  intros Hf. unfold sum_total.
  rewrite map_fold_insert_L; [reflexivity| |exact Hf].
  intros; lia.
Qed.

Lemma sum_total_lookup (m : gmap nat Node) f c :
  m !! f = Some c → sum_total m = totalWeight c + sum_total (delete f m).
Proof.
  intros Hf. unfold sum_total.
  rewrite (map_fold_delete_L _ _ f c m); [reflexivity| |exact Hf].
  intros; lia.
Qed.

Lemma sum_total_insert (m : gmap nat Node) f c :
  sum_total (<[f := c]> m)
  = sum_total m + totalWeight c - from_option totalWeight 0 (m !! f).
Proof.
  destruct (m !! f) as [c0|] eqn:Hf; cbn [from_option].
  - rewrite <- (insert_delete_eq m f c).
    rewrite sum_total_insert_fresh by apply lookup_delete_eq.
    rewrite (sum_total_lookup m f c0 Hf). lia.
  - rewrite sum_total_insert_fresh by exact Hf. lia.
Qed.

(** *** One insertion *)

Lemma totalWeight_insert_path path w n :
  totalWeight (insert_path path w n) = totalWeight n + w.
Proof. destruct path; reflexivity. Qed.

Lemma frame_insert_path path w n :
  frame (insert_path path w n) = frame n.
Proof. destruct path; reflexivity. Qed.

Lemma wf_newNode f : wf (newNode f).
Proof.
  constructor.
  - unfold weight_inv, children_total. cbn. rewrite sum_total_empty. lia.
  - intros g c Hc. cbn in Hc. rewrite lookup_empty in Hc. discriminate.
Qed.

Lemma wf_rootNode : wf rootNode.
Proof.
  constructor.
  - unfold weight_inv, children_total. cbn. rewrite sum_total_empty. lia.
  - intros g c Hc. cbn in Hc. rewrite lookup_empty in Hc. discriminate.
Qed.

Lemma wf_inv n : wf n → weight_inv n.
Proof. by intros [? ? ?]. Qed.

Lemma wf_child n f c : wf n → children n !! f = Some c → wf c.
Proof. intros [? ? Hch]. apply Hch. Qed.

Lemma wf_default n f : wf n → wf (default (newNode f) (children n !! f)).
Proof.
  intros Hn. destruct (children n !! f) as [c|] eqn:Hf; cbn.
  - exact (wf_child n f c Hn Hf).
  - apply wf_newNode.
Qed.

(** Merging a path keeps the invariant at every node. *)
Lemma wf_insert_path path w : ∀ n, wf n → wf (insert_path path w n).
Proof.
  induction path as [|f rest IH]; intros n Hn.
  - constructor.
    + pose proof (wf_inv n Hn) as Hi. unfold weight_inv, children_total in *.
      cbn. lia.
    + intros g c Hc. exact (wf_child n g c Hn Hc).
  - constructor.
    + pose proof (wf_inv n Hn) as Hi. unfold weight_inv, children_total in *.
      cbn [insert_path totalWeight selfWeight children].
      rewrite sum_total_insert, totalWeight_insert_path.
      destruct (children n !! f) as [c|]; cbn; lia.
    + intros g c. cbn [insert_path children]. rewrite lookup_insert.
      case_decide as Hg.
      * intros [= <-]. apply IH, wf_default, Hn.
      * intros Hc. exact (wf_child n g c Hn Hc).
Qed.

(** The invariant reaches every node of a well-formed tree. *)
Lemma wf_node_of t n : node_of n t → wf t → weight_inv n.
Proof.
  induction 1 as [t|t f c n Hc _ IH]; intros Ht.
  - apply wf_inv, Ht.
  - apply IH. exact (wf_child t f c Ht Hc).
Qed.

(** *** The fold *)

Lemma wf_ingest r s : wf (tree r) → wf (tree (ingest r s)).
Proof.
  intros Hr. unfold ingest. destruct (malformed s); cbn; [exact Hr|].
  apply wf_insert_path, Hr.
Qed.

Lemma wf_foldl_ingest samples : ∀ r, wf (tree r) → wf (tree (foldl ingest r samples)).
Proof.
  induction samples as [|s samples IH]; intros r Hr; [exact Hr|].
  cbn [foldl]. apply IH, wf_ingest, Hr.
Qed.

Lemma wf_aggregate samples : wf (tree (aggregate samples)).
Proof. apply wf_foldl_ingest. cbn. apply wf_rootNode. Qed.

Lemma totalWeight_foldl_ingest samples : ∀ r,
  totalWeight (tree (foldl ingest r samples))
  = totalWeight (tree r) + accepted_weight samples.
Proof.
  induction samples as [|s samples IH]; intros r; cbn [foldl].
  - cbn. lia.
  - rewrite IH. unfold accepted_weight at 2. cbn [foldr].
    fold (accepted_weight samples). unfold ingest.
    destruct (malformed s); cbn [tree]; [reflexivity|].
    rewrite totalWeight_insert_path. lia.
Qed.

Lemma aggregate_weight_total samples :
  totalWeight (tree (aggregate samples)) = accepted_weight samples.
Proof. unfold aggregate. rewrite totalWeight_foldl_ingest. cbn. lia. Qed.

(** C6: at every node of the tree built by [aggregate], [totalWeight] is
    [selfWeight] plus the sum of the children's [totalWeight], and the
    root's [totalWeight] is the sum of the weights of the accepted
    samples. *)
Theorem aggregate_weight_invariant (samples : list Sample) :
  (∀ n, node_of n (tree (aggregate samples)) →
        totalWeight n = selfWeight n + children_total n) ∧
  totalWeight (tree (aggregate samples)) = accepted_weight samples.
Proof.
  split.
  - intros n Hn. exact (wf_node_of _ n Hn (wf_aggregate samples)).
  - apply aggregate_weight_total.
Qed.

(** *** Order of processing *)

(** Two insertions commute: weights add up along shared prefixes, and
    insertions below distinct children do not meet. *)
Lemma insert_path_comm p1 w1 : ∀ p2 w2 n,
  insert_path p1 w1 (insert_path p2 w2 n)
  = insert_path p2 w2 (insert_path p1 w1 n).
Proof.
  induction p1 as [|f1 r1 IH]; intros [|f2 r2] w2 n;
    cbn [insert_path frame selfWeight totalWeight children].
  - f_equal; lia.
  - f_equal; lia.
  - f_equal; lia.
  - f_equal; [lia|].
    destruct (decide (f1 = f2)) as [->|Hne].
    + rewrite !lookup_insert_eq, !insert_insert_eq. cbn [default].
      f_equal. apply IH.
    + rewrite (lookup_insert_ne _ f2 f1) by congruence.
      rewrite (lookup_insert_ne _ f1 f2) by congruence.
      apply insert_insert_ne. congruence.
Qed.

Lemma tree_ingest r s :
  tree (ingest r s)
  = if malformed s then tree r
    else insert_path (stackPath s) (weight_value (weight s)) (tree r).
Proof. unfold ingest. destruct (malformed s); reflexivity. Qed.

Lemma tree_ingest_comm r a b :
  tree (ingest (ingest r a) b) = tree (ingest (ingest r b) a).
Proof.
  rewrite !tree_ingest.
  destruct (malformed a), (malformed b); try reflexivity.
  apply insert_path_comm.
Qed.

(** The tree after a fold depends on the tree it starts from only. *)
Lemma tree_foldl_ingest_ext samples : ∀ r1 r2,
  tree r1 = tree r2 →
  tree (foldl ingest r1 samples) = tree (foldl ingest r2 samples).
Proof.
  induction samples as [|s samples IH]; intros r1 r2 H; [exact H|].
  cbn [foldl]. apply IH. rewrite !tree_ingest, H. reflexivity.
Qed.

Lemma tree_foldl_ingest_perm l1 l2 :
  l1 ≡ₚ l2 → ∀ r, tree (foldl ingest r l1) = tree (foldl ingest r l2).
Proof.
  induction 1 as [|x l1 l2 _ IH|x y l|l1 l2 l3 _ IH1 _ IH2]; intros r.
  - reflexivity.
  - cbn [foldl]. apply IH.
  - cbn [foldl]. apply tree_foldl_ingest_ext, tree_ingest_comm.
  - rewrite IH1. apply IH2.
Qed.

Lemma diagnostics_foldl_ingest samples : ∀ r,
  diagnostics (foldl ingest r samples)
  = diagnostics r
    ++ (MalformedSample <$> filter (λ s, malformed s = true) samples).
Proof.
  induction samples as [|s samples IH]; intros r; cbn [foldl].
  - cbn. by rewrite app_nil_r.
  - rewrite IH. unfold ingest. rewrite filter_cons.
    destruct (malformed s) eqn:E; cbn [diagnostics].
    + rewrite decide_True by reflexivity.
      rewrite fmap_cons, <- app_assoc. reflexivity.
    + rewrite decide_False by discriminate. reflexivity.
Qed.

(** C7: aggregating any permutation of a sequence of samples yields the
    same tree, in structure and in weights; the rejected samples reported are
    the same up to their order. *)
Theorem aggregate_permutation (l1 l2 : list Sample) :
  l1 ≡ₚ l2 →
  tree (aggregate l1) = tree (aggregate l2) ∧
  diagnostics (aggregate l1) ≡ₚ diagnostics (aggregate l2).
Proof.
  intros Hp. split.
  - unfold aggregate. apply tree_foldl_ingest_perm, Hp.
  - unfold aggregate. rewrite !diagnostics_foldl_ingest. cbn [diagnostics app].
    by rewrite Hp.
Qed.

Lemma aggregate_permutation_witness :
  tree (aggregate path_samples) = tree (aggregate (rev path_samples)) ∧
  diagnostics (aggregate path_samples)
    ≡ₚ diagnostics (aggregate (rev path_samples)).
Proof.
  apply (aggregate_permutation path_samples (rev path_samples)).
  apply Permutation_rev.
Defined.

(** *** Malformed samples *)

Lemma malformed_spec (s : Sample) :
  malformed s = true ↔
  stackPath s = [] ∨ is_finite (weight s) = false
  ∨ ∃ z, weight s = Finite z ∧ z < 0.
Proof.
  unfold malformed. rewrite !orb_true_iff, negb_true_iff, Z.ltb_lt, Nat.eqb_eq.
  split.
  - intros [[H|H]|H].
    + right; left; exact H.
    + destruct (weight s) as [z| | |] eqn:Hw; cbn in H; try lia.
      right; right. exists z. split; [reflexivity|exact H].
    + left. by apply length_zero_iff_nil.
  - intros [H|[H|(z & Hw & Hz)]].
    + right. rewrite H. reflexivity.
    + left; left; exact H.
    + left; right. rewrite Hw. exact Hz.
Qed.

Lemma accepted_weight_app l1 l2 :
  accepted_weight (l1 ++ l2) = accepted_weight l1 + accepted_weight l2.
Proof.
  unfold accepted_weight. induction l1 as [|s l1 IH]; cbn [foldr app].
  - lia.
  - rewrite IH. destruct (malformed s); lia.
Qed.

(** C8: a malformed sample anywhere in a batch (empty stack, non-finite or
    negative weight) is rejected and reported in the diagnostics; the tree is
    the one the rest of the batch aggregates to, so the rejected sample adds
    nothing to the [totalWeight] of any node, the invariant holds at every
    node and the root weighs the accepted samples of the rest. *)
Theorem malformed_sample_rejected (before after : list Sample) (s : Sample) :
  stackPath s = [] ∨ is_finite (weight s) = false
  ∨ (∃ z, weight s = Finite z ∧ z < 0) →
  let r := aggregate (before ++ s :: after) in
  MalformedSample s ∈ diagnostics r ∧
  tree r = tree (aggregate (before ++ after)) ∧
  (∀ n, node_of n (tree r) →
        totalWeight n = selfWeight n + children_total n) ∧
  totalWeight (tree r) = accepted_weight (before ++ after).
Proof.
  intros Hm%malformed_spec r. subst r.
  assert (tree (aggregate (before ++ s :: after))
          = tree (aggregate (before ++ after))) as Htree.
  { unfold aggregate. rewrite !foldl_app. cbn [foldl].
    apply tree_foldl_ingest_ext. rewrite tree_ingest, Hm. reflexivity. }
  split; [|split; [exact Htree|split]].
  - unfold aggregate. rewrite diagnostics_foldl_ingest. cbn [diagnostics app].
    apply list_elem_of_fmap. exists s. split; [reflexivity|].
    apply list_elem_of_filter. split; [exact Hm|].
    apply elem_of_app. right. left.
  - intros n Hn. exact (wf_node_of _ n Hn (wf_aggregate _)).
  - rewrite Htree. apply aggregate_weight_total.
Qed.

Lemma malformed_sample_rejected_witness :
  MalformedSample (mkSample [] (Finite 5))
    ∈ diagnostics (aggregate ([mkSample [0; 1]%nat (Finite 1)]
                              ++ mkSample [] (Finite 5)
                              :: [mkSample [0; 2]%nat (Finite 2)])) ∧
  tree (aggregate ([mkSample [0; 1]%nat (Finite 1)]
                   ++ mkSample [] (Finite 5)
                   :: [mkSample [0; 2]%nat (Finite 2)]))
  = tree (aggregate ([mkSample [0; 1]%nat (Finite 1)]
                     ++ [mkSample [0; 2]%nat (Finite 2)])) ∧
  (∀ n, node_of n (tree (aggregate ([mkSample [0; 1]%nat (Finite 1)]
                                    ++ mkSample [] (Finite 5)
                                    :: [mkSample [0; 2]%nat (Finite 2)])))
        → totalWeight n = selfWeight n + children_total n) ∧
  totalWeight (tree (aggregate ([mkSample [0; 1]%nat (Finite 1)]
                                ++ mkSample [] (Finite 5)
                                :: [mkSample [0; 2]%nat (Finite 2)])))
  = accepted_weight ([mkSample [0; 1]%nat (Finite 1)]
                     ++ [mkSample [0; 2]%nat (Finite 2)]).
Proof.
  apply (malformed_sample_rejected
           [mkSample [0; 1]%nat (Finite 1)]
           [mkSample [0; 2]%nat (Finite 2)]
           (mkSample [] (Finite 5))).
  left. reflexivity.
Defined.

(** *** Projection *)

(** Induction on a well-formed tree, with the hypothesis at every child. *)
Lemma wf_children_ind (P : Node → Prop) :
  (∀ n, weight_inv n →
        (∀ f c, children n !! f = Some c → wf c) →
        (∀ f c, children n !! f = Some c → P c) → P n) →
  ∀ n, wf n → P n.
Proof.
  intros step. fix IH 2. intros n [n' Hinv Hch].
  apply step; [exact Hinv|exact Hch|].
  intros f c Hc. exact (IH c (Hch f c Hc)).
Qed.

Lemma regroup_unfold place path n out :
  regroup place path n out
  = map_fold (λ f c acc, regroup place (path ++ [f]) c acc)
             (place path n out) (children n).
Proof. destruct n; reflexivity. Qed.

(** A fold over siblings keeps what every step keeps. *)
Lemma map_fold_siblings_inv (Q : Node → Prop)
    (step : nat → Node → Node → Node) (m : gmap nat Node) :
  (∀ f c, m !! f = Some c → ∀ acc, Q acc → Q (step f c acc)) →
  ∀ init, Q init → Q (map_fold step init m).
Proof.
  induction m as [|i x m Hi Hfirst IH] using map_first_key_ind;
    intros Hstep init Hinit.
  - by rewrite map_fold_empty.
  - rewrite map_fold_insert_first_key by done.
    apply Hstep; [apply lookup_insert_eq|].
    apply IH; [|exact Hinit].
    intros f c Hf. apply Hstep. rewrite lookup_insert_ne; [exact Hf|].
    intros ->. congruence.
Qed.

(** A fold over siblings in which every step adds the sibling's total. *)
Lemma map_fold_siblings_total (step : nat → Node → Node → Node)
    (m : gmap nat Node) :
  (∀ f c, m !! f = Some c →
          ∀ acc, totalWeight (step f c acc) = totalWeight acc + totalWeight c) →
  ∀ init, totalWeight (map_fold step init m) = totalWeight init + sum_total m.
Proof.
  induction m as [|i x m Hi Hfirst IH] using map_first_key_ind;
    intros Hstep init.
  - rewrite map_fold_empty, sum_total_empty. lia.
  - rewrite map_fold_insert_first_key by done.
    rewrite Hstep by apply lookup_insert_eq.
    rewrite sum_total_insert_fresh by done.
    rewrite IH; [lia|].
    intros f c Hf. apply Hstep. rewrite lookup_insert_ne; [exact Hf|].
    intros ->. congruence.
Qed.

(** Re-aggregation conserves weight: when every node's own weight is placed
    somewhere, the result gains the total weight of the tree walked. *)
Lemma totalWeight_regroup place :
  (∀ path n out,
     totalWeight (place path n out) = totalWeight out + selfWeight n) →
  ∀ n, wf n → ∀ path out,
    totalWeight (regroup place path n out) = totalWeight out + totalWeight n.
Proof.
  intros Hplace. apply (wf_children_ind (λ n, ∀ path out, _)).
  intros n Hinv _ IH path out. rewrite regroup_unfold.
  rewrite map_fold_siblings_total.
  - rewrite Hplace, Hinv. unfold children_total. lia.
  - intros f c Hc acc. apply (IH f c Hc).
Qed.

Lemma regroup_inv (Q : Node → Prop) place :
  (∀ path n out, Q out → Q (place path n out)) →
  ∀ n, wf n → ∀ path out, Q out → Q (regroup place path n out).
Proof.
  intros Hplace. apply (wf_children_ind (λ n, ∀ path out, _ → _)).
  intros n _ _ IH path out Hout. rewrite regroup_unfold.
  apply map_fold_siblings_inv.
  - intros f c Hc acc Hacc. apply (IH f c Hc), Hacc.
  - apply Hplace, Hout.
Qed.

Lemma totalWeight_elide table keep t :
  wf t → totalWeight (elide table keep t) = totalWeight t.
Proof.
  intros Ht. unfold elide. rewrite totalWeight_regroup; [cbn; lia| |exact Ht].
  intros path n out. apply totalWeight_insert_path.
Qed.

Lemma wf_elide table keep t : wf t → wf (elide table keep t).
Proof.
  intros Ht. unfold elide. apply (regroup_inv wf); [|exact Ht|apply wf_rootNode].
  intros path n out. apply wf_insert_path.
Qed.

Lemma terminal_false n : terminal n = false → selfWeight n = 0.
Proof.
  unfold terminal. rewrite orb_false_iff, negb_false_iff, Z.eqb_eq.
  by intros [_ ?].
Qed.

Lemma totalWeight_invert t : wf t → totalWeight (invert t) = totalWeight t.
Proof.
  intros Ht. unfold invert. rewrite totalWeight_regroup; [cbn; lia| |exact Ht].
  intros path n out. destruct (terminal n) eqn:E.
  - apply totalWeight_insert_path.
  - rewrite (terminal_false n E). lia.
Qed.

Lemma wf_invert t : wf t → wf (invert t).
Proof.
  intros Ht. unfold invert. apply (regroup_inv wf); [|exact Ht|apply wf_rootNode].
  intros path n out Hout. destruct (terminal n); [|exact Hout].
  apply wf_insert_path, Hout.
Qed.

(** Ordering siblings neither drops nor repeats one. *)
Lemma insert_sorted_perm {A} (leb : A → A → bool) x l :
  insert_sorted leb x l ≡ₚ x :: l.
Proof.
  induction l as [|y l IH]; cbn [insert_sorted]; [reflexivity|].
  destruct (leb x y); [reflexivity|].
  rewrite IH. apply perm_swap.
Qed.

Lemma sort_by_perm {A} (leb : A → A → bool) l : sort_by leb l ≡ₚ l.
Proof.
  unfold sort_by. induction l as [|x l IH]; cbn [foldr]; [reflexivity|].
  by rewrite insert_sorted_perm, IH.
Qed.

Lemma vtotal_to_view table s n : vtotal (to_view table s n) = totalWeight n.
Proof. destruct n; reflexivity. Qed.

Lemma vself_to_view table s n : vself (to_view table s n) = selfWeight n.
Proof. destruct n; reflexivity. Qed.

(** Projection conserves the root's total weight, whatever the options. *)
Lemma vtotal_project table t o :
  wf t → vtotal (project table t o) = totalWeight t.
Proof.
  intros Ht. unfold project. rewrite vtotal_to_view.
  assert (wf (match frameFilter o with
              | Some keep => elide table keep t
              | None => t
              end)
          ∧ totalWeight (match frameFilter o with
                         | Some keep => elide table keep t
                         | None => t
                         end) = totalWeight t) as [Hwf Htot].
  { destruct (frameFilter o) as [keep|].
    - split; [apply wf_elide, Ht|apply totalWeight_elide, Ht].
    - split; [exact Ht|reflexivity]. }
  destruct (orientation o).
  - exact Htot.
  - rewrite totalWeight_invert by exact Hwf. exact Htot.
Qed.

(** *** Where the weight of an elided node lands *)

Lemma self_at_newNode q f : self_at q (newNode f) = 0.
Proof. destruct q; cbn; [reflexivity|]. by rewrite lookup_empty. Qed.

Lemma self_at_default q n f :
  self_at q (default (newNode f) (children n !! f)) = self_at (f :: q) n.
Proof.
  cbn [self_at]. destruct (children n !! f); cbn; [reflexivity|].
  apply self_at_newNode.
Qed.

(** An insertion adds its weight to the own weight at its path, and
    nowhere else. *)
Lemma self_at_insert_path p w : ∀ q n,
  self_at q (insert_path p w n)
  = self_at q n + (if decide (p = q) then w else 0).
Proof.
  induction p as [|f r IH]; intros [|g q] n.
  - cbn. rewrite decide_True by reflexivity. reflexivity.
  - cbn. rewrite decide_False by discriminate. lia.
  - cbn. rewrite decide_False by discriminate. lia.
  - cbn [self_at insert_path children]. rewrite lookup_insert.
    destruct (decide (f = g)) as [->|Hne].
    + rewrite IH, self_at_default. cbn [self_at].
      destruct (decide (r = q)) as [->|Hrq].
      * rewrite decide_True by reflexivity. reflexivity.
      * rewrite decide_False by congruence. reflexivity.
    + rewrite decide_False by congruence. lia.
Qed.

Lemma landing_at_app table keep q l1 l2 :
  landing_at table keep q (l1 ++ l2)
  = landing_at table keep q l1 + landing_at table keep q l2.
Proof.
  unfold landing_at. induction l1 as [|pn l1 IH]; cbn [foldr app]; lia.
Qed.

Lemma nodes_of_unfold path n :
  nodes_of path n
  = (path, n)
    :: map_fold (λ f c acc, nodes_of (path ++ [f]) c ++ acc) [] (children n).
Proof. destruct n; reflexivity. Qed.

(** A fold over siblings, side by side with the enumeration of their
    nodes. *)
Lemma map_fold_siblings_landing table keep q path
    (step : nat → Node → Node → Node) (m : gmap nat Node) :
  (∀ f c, m !! f = Some c → ∀ acc,
     self_at q (step f c acc)
     = self_at q acc + landing_at table keep q (nodes_of (path ++ [f]) c)) →
  ∀ init,
    self_at q (map_fold step init m)
    = self_at q init
      + landing_at table keep q
          (map_fold (λ f c acc, nodes_of (path ++ [f]) c ++ acc) [] m).
Proof.
  induction m as [|i x m Hi Hfirst IH] using map_first_key_ind;
    intros Hstep init.
  - rewrite !map_fold_empty. cbn. lia.
  - rewrite !map_fold_insert_first_key by done.
    rewrite Hstep by apply lookup_insert_eq.
    rewrite landing_at_app.
    rewrite IH; [lia|].
    intros f c Hf. apply Hstep. rewrite lookup_insert_ne; [exact Hf|].
    intros ->. congruence.
Qed.

Lemma self_at_regroup_elide table keep q :
  ∀ n, wf n → ∀ path out,
    self_at q (regroup (λ path n out,
                          insert_path (surviving table keep path)
                                      (selfWeight n) out)
                       path n out)
    = self_at q out + landing_at table keep q (nodes_of path n).
Proof.
  apply (wf_children_ind (λ n, ∀ path out, _)).
  intros n _ _ IH path out. rewrite regroup_unfold, nodes_of_unfold.
  rewrite (map_fold_siblings_landing table keep q path).
  - rewrite self_at_insert_path. unfold landing_at at 2. cbn [foldr fst snd].
    fold (landing_at table keep q
            (map_fold (λ f c acc, nodes_of (path ++ [f]) c ++ acc) []
                      (children n))).
    lia.
  - intros f c Hc acc. apply (IH f c Hc).
Qed.

(** In the filtered tree the own weight at a path is the own weight of the
    nodes of the aggregated tree whose surviving path it is. *)
Lemma self_at_elide table keep t q :
  wf t →
  self_at q (elide table keep t) = landing_at table keep q (nodes_of [] t).
Proof.
  intros Ht. unfold elide. rewrite self_at_regroup_elide by exact Ht.
  destruct q; cbn; [lia|]. rewrite lookup_empty. lia.
Qed.

(** *** Which nodes survive *)

Lemma frames_all_children P n f c :
  frames_all P n → children n !! f = Some c →
  frame c = Some f ∧ P f ∧ frames_all P c.
Proof. intros [? H]. apply H. Qed.

Lemma frames_all_newNode P f : frames_all P (newNode f).
Proof.
  constructor. intros g c Hc. cbn in Hc. rewrite lookup_empty in Hc.
  discriminate.
Qed.

Lemma frames_all_rootNode P : frames_all P rootNode.
Proof.
  constructor. intros g c Hc. cbn in Hc. rewrite lookup_empty in Hc.
  discriminate.
Qed.

Lemma frames_all_insert_path (P : nat → Prop) path w :
  Forall P path → ∀ n, frames_all P n → frames_all P (insert_path path w n).
Proof.
  induction 1 as [|f rest Hf _ IH]; intros n Hn.
  - constructor. intros g c Hc. exact (frames_all_children P n g c Hn Hc).
  - constructor. intros g c. cbn [insert_path children].
    rewrite lookup_insert. case_decide as Hg.
    + subst g. intros [= <-]. rewrite frame_insert_path.
      destruct (children n !! f) as [c0|] eqn:Hc0; cbn [default].
      * destruct (frames_all_children P n f c0 Hn Hc0) as (? & ? & ?).
        split; [done|]. split; [done|]. by apply IH.
      * split; [done|]. split; [done|]. apply IH, frames_all_newNode.
    + intros Hc. exact (frames_all_children P n g c Hn Hc).
Qed.

Lemma frames_all_node_of P t n :
  node_of n t → frames_all P t → n = t ∨ ∃ f, frame n = Some f ∧ P f.
Proof.
  induction 1 as [t|t f c n Hc _ IH]; intros Ht; [by left|].
  destruct (frames_all_children P t f c Ht Hc) as (Hfr & Hp & Hall).
  right. destruct (IH Hall) as [->|?]; [|done]. by exists f.
Qed.

Lemma frames_all_elide table keep t :
  wf t →
  frame (elide table keep t) = None ∧
  frames_all (λ id, passes table keep id = true) (elide table keep t).
Proof.
  intros Ht. unfold elide.
  apply (regroup_inv (λ out, frame out = None ∧ frames_all _ out));
    [|exact Ht|by split; [|apply frames_all_rootNode]].
  intros path n out [Hfr Hall]. split.
  - by rewrite frame_insert_path.
  - apply frames_all_insert_path; [|exact Hall].
    unfold surviving. apply Forall_forall. intros id Hid.
    by apply list_elem_of_filter in Hid as [? _].
Qed.

(** No node of the filtered tree carries a frame that fails the filter. *)
Lemma elide_survivors_pass table keep t n f :
  wf t → node_of n (elide table keep t) → frame n = Some f →
  passes table keep f = true.
Proof.
  intros Ht Hn Hf. destruct (frames_all_elide table keep t Ht) as [Hroot Hall].
  destruct (frames_all_node_of _ _ n Hn Hall) as [->|(g & Hg & Hp)].
  - congruence.
  - congruence.
Qed.

Lemma passes_applicationFrameOnly table f :
  passes table applicationFrameOnly f = true →
  ∃ fr, frame_of table f = Some fr ∧ is_application fr = true.
Proof.
  unfold passes. destruct (frame_of table f) as [fr|]; [|discriminate].
  intros H. by exists fr.
Qed.

(** C9: projecting an aggregated tree with the application-frames-only
    filter, in either orientation and sort order, conserves the root's total
    weight exactly. In the filtered tree the invariant holds at every node,
    no surviving node carries a non-application frame, and the own weight at
    each path is the own weight of the nodes whose surviving path it is: an
    elided node's weight lands on its nearest surviving ancestor, or on the
    root when none survives. *)
Theorem filter_conserves_total_weight (samples : list Sample)
    (table : list Frame) (o : Orientation.t) (s : Sort.t) :
  let t := tree (aggregate samples) in
  let filtered := elide table applicationFrameOnly t in
  vtotal (project table t
            {| orientation := o; sort := s;
               frameFilter := Some applicationFrameOnly |})
    = totalWeight t ∧
  totalWeight filtered = totalWeight t ∧
  (∀ n, node_of n filtered →
        totalWeight n = selfWeight n + children_total n) ∧
  (∀ n f, node_of n filtered → frame n = Some f →
          ∃ fr, frame_of table f = Some fr ∧ is_application fr = true) ∧
  (∀ q, self_at q filtered
        = landing_at table applicationFrameOnly q (nodes_of [] t)).
Proof.
  intros t filtered. subst t filtered.
  pose proof (wf_aggregate samples) as Ht.
  split; [|split; [|split; [|split]]].
  - apply vtotal_project, Ht.
  - apply totalWeight_elide, Ht.
  - intros n Hn.
    exact (wf_node_of _ n Hn (wf_elide table applicationFrameOnly _ Ht)).
  - intros n f Hn Hf. apply passes_applicationFrameOnly.
    exact (elide_survivors_pass table applicationFrameOnly _ n f Ht Hn Hf).
  - intros q. apply self_at_elide, Ht.
Qed.

(** The scenario of the specification: [A,B,C] with weight 1 and [A,B,D]
    with weight 2. *)
Example aggregate_scenario :
  let t := tree (aggregate [mkSample [0; 1; 2]%nat (Finite 1);
                            mkSample [0; 1; 3]%nat (Finite 2)]) in
  totalWeight t = 3 ∧
  (totalWeight <$> children t !! 0%nat) = Some 3 ∧
  self_at [0; 1; 2]%nat t = 1 ∧ self_at [0; 1; 3]%nat t = 2 ∧
  self_at [0; 1]%nat t = 0.
Proof. vm_compute. repeat split. Qed.

(** Eliding the system frame of [app_table]: the weight of [main > poll]
    lands on [main], the weight of [poll] alone on the root. *)
Example elide_scenario :
  let t := tree (aggregate [mkSample [0; 1; 2]%nat (Finite 1);
                            mkSample [0; 1]%nat (Finite 2);
                            mkSample [1]%nat (Finite 8)]) in
  let v := project app_table t
             {| orientation := Orientation.topDown;
                sort := Sort.alphabetical;
                frameFilter := Some applicationFrameOnly |} in
  v = mkView None 8 11
        [mkView (Some 0%nat) 2 3 [mkView (Some 2%nat) 1 1 []]].
Proof. vm_compute. reflexivity. Qed.

End EngineProperties.

(** ** The panel, continued *)

Section PanelExtras.
Import Panel.

(** X1: whenever the flamegraph is rendered, the [hideSystemFrames] value it
    receives and the frame filter given to the profile-group provider agree:
    the filter is [applicationFrameOnly] when the value is true and absent
    when it is false; the setter it receives is the one of the stored
    preference, and the query is not loading. *)
Theorem flamegraph_prop_matches_filter (h : Hooks) (transaction : string)
    (hide : bool) (set_hide : bool → gmap string bool) :
  let r := AggregateFlamegraphPanel h transaction in
  body r = DeprecatedAggregateFlamegraph hide set_hide →
  frameFilter (provider r)
    = (if hide then Some applicationFrameOnly else None) ∧
  hide = hideSystemFrames h ∧
  set_hide = setHideSystemFrames h ∧
  isLoading (useAggregateFlamegraphQuery h (query r)) = false.
Proof.
  intros r. subst r. unfold AggregateFlamegraphPanel.
  cbn [body provider frameFilter query].
  destruct (isLoading _); [discriminate|].
  destruct (isEmpty _); [discriminate|].
  intros [= <- <-]. repeat split.
Qed.

Lemma flamegraph_prop_matches_filter_witness :
  frameFilter (provider (AggregateFlamegraphPanel
                           (completed_with (Some one_frame)) "/api/checkout"))
    = (if true then Some applicationFrameOnly else None) ∧
  true = hideSystemFrames (completed_with (Some one_frame)) ∧
  setHideSystemFrames (completed_with (Some one_frame))
    = setHideSystemFrames (completed_with (Some one_frame)) ∧
  isLoading (useAggregateFlamegraphQuery
               (completed_with (Some one_frame))
               (query (AggregateFlamegraphPanel
                         (completed_with (Some one_frame)) "/api/checkout")))
    = false.
Proof.
  apply (flamegraph_prop_matches_filter
           (completed_with (Some one_frame)) "/api/checkout" true
           (setHideSystemFrames (completed_with (Some one_frame)))).
  reflexivity.
Defined.

(** X2: toggling the filter never changes which alternative the panel
    shows: after any sequence of toggles the loading indicator or the empty
    state is rendered as before, and a flamegraph stays a flamegraph, now
    with the last value chosen. *)
Theorem filter_toggle_keeps_branch (h : Hooks) (transaction : string)
    (vs : list bool) (v : bool) :
  let h' := foldl toggled h (vs ++ [v]) in
  body (AggregateFlamegraphPanel h' transaction)
  = match body (AggregateFlamegraphPanel h transaction) with
    | DeprecatedAggregateFlamegraph _ _ =>
        DeprecatedAggregateFlamegraph v (setHideSystemFrames h')
    | shown => shown
    end.
Proof.
  intros h'. subst h'. unfold AggregateFlamegraphPanel. cbn [body].
  rewrite queryParams_toggles, query_hook_toggles.
  destruct (isLoading _); [reflexivity|].
  destruct (isEmpty _); [reflexivity|].
  rewrite foldl_snoc at 1. rewrite hideSystemFrames_toggled. reflexivity.
Qed.

End PanelExtras.

(** ** The setup-sentry action *)

Section SetupSentryProperties.
Import SetupSentry.

(** The step in closed form. *)
Lemma setup_default_environment_run (e : SetupEnv) :
  setup_default_environment e fresh_shell
  = let total := default EmptyString (MATRIX_INSTANCE_TOTAL e) in
    let missing := nonempty (MATRIX_INSTANCE e) && negb (nonempty total) in
    mkShell
      (["PIP_DISABLE_PIP_VERSION_CHECK=on";
        "PIP_INDEX_URL=https://pypi.devinfra.sentry.io/simple";
        "SENTRY_SKIP_BACKEND_VALIDATION=1";
        "NODE_ENV=development";
        "PY_COLORS=1";
        "PYTEST_ADDOPTS=--reruns=5 --durations=10 --fail-slow=60s"]
       ++ (if String.eqb (GITHUB_REPOSITORY e) "getsentry/sentry"
           then ["PYTEST_SENTRY_DSN=https://6fd5cfea2d4d46b182ad214ac7810508@sentry.io/2423079";
                 "PYTEST_SENTRY_TRACES_SAMPLE_RATE=0"]
                ++ (if String.eqb (GITHUB_REF e) "refs/heads/master"
                    then ["PYTEST_SENTRY_ALWAYS_REPORT=1"] else [])
           else [])
       ++ ["SENTRY_RELEASE=ci@" +:+ GITHUB_SHA e]
       ++ (if nonempty (MATRIX_INSTANCE e) && nonempty total
           then ["TEST_GROUP=" +:+ MATRIX_INSTANCE e;
                 "TOTAL_TEST_GROUPS=" +:+ total]
           else []))
      (if missing then ["MATRIX_INSTANCE_TOTAL is required."] else [])
      [] []
      (if missing then Some 1%nat else None).
Proof.
  destruct e as [inst total repo ref sha].
  unfold setup_default_environment, then_.
  cbn [MATRIX_INSTANCE MATRIX_INSTANCE_TOTAL GITHUB_REPOSITORY GITHUB_REF
       GITHUB_SHA].
  destruct (String.eqb repo "getsentry/sentry"),
           (String.eqb ref "refs/heads/master"),
           inst, total as [[|? ?]|]; reflexivity.
Qed.

Lemma nonempty_spec x : nonempty x = true ↔ x ≠ EmptyString.
Proof. destruct x; cbn; split; congruence. Qed.

Ltac setup_run e :=
  rewrite (setup_default_environment_run e); cbn zeta;
  cbn [github_env stdout services started status exit_status];
  destruct e as [inst total repo ref sha];
  cbn [MATRIX_INSTANCE MATRIX_INSTANCE_TOTAL GITHUB_REPOSITORY GITHUB_REF
       GITHUB_SHA].

(** A line of a list is among the lines of that list that set the same
    name. *)
Lemma elem_of_same_name (x : string) (l : list string) :
  x ∈ l → x ∈ filter (λ y, line_name y = line_name x) l.
Proof. intros H. apply list_elem_of_filter. split; [reflexivity|exact H]. Qed.

Ltac same_name H :=
  apply elem_of_same_name in H; vm_compute in H;
  first [ apply elem_of_nil in H; contradiction
        | apply list_elem_of_singleton in H ].

Ltac listed :=
  repeat first [ apply list_elem_of_here | apply list_elem_of_further ].

Ltac setup_cases inst total repo ref :=
  destruct (String.eqb_spec repo "getsentry/sentry");
  destruct (String.eqb_spec ref "refs/heads/master");
  destruct inst as [|c inst]; destruct total as [[|c' total]|];
  cbn [nonempty from_option id andb negb app exit_status status].

(** X3: the step "Setup default environment variables" fails, with status 1
    and one line of explanation, exactly when a matrix instance is given
    and [MATRIX_INSTANCE_TOTAL] is unset or empty; no test group is exported
    then. In every other case it succeeds and prints nothing. *)
Theorem sharding_requires_total (e : SetupEnv) :
  let r := setup_default_environment e fresh_shell in
  (exit_status r = 1%nat ↔
     MATRIX_INSTANCE e ≠ EmptyString ∧
     default EmptyString (MATRIX_INSTANCE_TOTAL e) = EmptyString) ∧
  (exit_status r ≠ 1%nat → exit_status r = 0%nat ∧ stdout r = []) ∧
  (exit_status r = 1%nat →
     stdout r = ["MATRIX_INSTANCE_TOTAL is required."] ∧
     ∀ v, (("TEST_GROUP=" +:+ v) ∉ github_env r)
          ∧ (("TOTAL_TEST_GROUPS=" +:+ v) ∉ github_env r)).
Proof.
  intros r. subst r. setup_run e. setup_cases inst total repo ref.
  all: split; [split; [intros; try done; split; done| intros [? ?]; done]|].
  all: split; [done|]; intros H; try discriminate H.
  all: split; [reflexivity|]; intros v; split; intros Hv; same_name Hv.
Qed.





(** The step in closed form, once [sentry init] has succeeded. *)
Lemma start_devservices_after_init (e : DevservicesEnv) (x : Commands) :
  sentry_init x = 0%nat →
  start_devservices e x fresh_shell
  = let l :=
      ["redis"; "postgres"]
      ++ (if String.eqb (NEED_CLICKHOUSE e) "true"
             || String.eqb (NEED_SNUBA e) "true"
          then ["clickhouse"] else [])
      ++ (if String.eqb (NEED_SNUBA e) "true" then ["snuba"] else [])
      ++ (if String.eqb (NEED_BIGTABLE e) "true" then ["bigtable"] else [])
      ++ (if String.eqb (NEED_CHARTCUTERIE e) "true"
          then ["chartcuterie"] else [])
      ++ (if String.eqb (NEED_SYMBOLICATOR e) "true"
          then ["symbolicator"] else [])
      ++ (if String.eqb (NEED_KAFKA e) "true" then ["kafka"] else []) in
    mkShell
      ((if String.eqb (NEED_BIGTABLE e) "true"
        then ["BIGTABLE_EMULATOR_HOST=127.0.0.1:8086"] else [])
       ++ (match sentry_devservices_up x with
           | O => ["DJANGO_LIVE_TEST_SERVER_ADDRESS=" +:+ docker_gateway x]
           | S _ => []
           end))
      [] l [l]
      (match sentry_devservices_up x, docker_ps x, cd_workdir x with
       | S n, _, _ => Some (S n)
       | O, S n, _ => Some (S n)
       | O, O, S n => Some (S n)
       | O, O, O => None
       end).
Proof.
  intros Hi. unfold start_devservices, then_. rewrite Hi.
  destruct (String.eqb (NEED_KAFKA e) "true"),
           (String.eqb (NEED_SNUBA e) "true"),
           (String.eqb (NEED_CLICKHOUSE e) "true"),
           (String.eqb (NEED_BIGTABLE e) "true"),
           (String.eqb (NEED_CHARTCUTERIE e) "true"),
           (String.eqb (NEED_SYMBOLICATOR e) "true");
    destruct (sentry_devservices_up x), (docker_ps x), (cd_workdir x);
    reflexivity.
Qed.

Lemma elem_of_optional (b : bool) (P : Prop) (a s : string) :
  (b = true ↔ P) → s ∈ (if b then [a] else []) ↔ s = a ∧ P.
Proof.
  intros Hb. destruct b.
  - rewrite list_elem_of_singleton. intuition.
  - rewrite elem_of_nil. intuition congruence.
Qed.

Lemma sublist_optional (b : bool) (a : string) :
  (if b then [a] else []) `sublist_of` [a].
Proof. destruct b; [reflexivity|apply sublist_nil_l]. Qed.

(** X7: when [sentry init] fails, the step "Start devservices" stops with
    its status: no service is started and nothing is exported. *)
Theorem no_services_without_init (e : DevservicesEnv) (x : Commands) :
  sentry_init x ≠ 0%nat →
  let r := start_devservices e x fresh_shell in
  started r = [] ∧ github_env r = [] ∧ exit_status r = sentry_init x.
Proof.
  intros Hi r. subst r. unfold start_devservices, then_.
  destruct (sentry_init x) as [|n]; [congruence|]. cbn.
  unfold when, running. cbn. done.
Qed.

Lemma no_services_without_init_witness :
  started (start_devservices codecov_ats_env init_fails fresh_shell) = [] ∧
  github_env (start_devservices codecov_ats_env init_fails fresh_shell) = [] ∧
  exit_status (start_devservices codecov_ats_env init_fails fresh_shell)
  = sentry_init init_fails.
Proof.
  apply (no_services_without_init codecov_ats_env init_fails).
  discriminate.
Defined.

(** X8: once [sentry init] has succeeded, [sentry devservices up] is called
    exactly once; redis and postgres are always among its arguments, and
    every other service exactly when its flag is the string [true]
    (clickhouse also when snuba is requested). *)
Theorem service_started_iff_requested (e : DevservicesEnv) (x : Commands) :
  sentry_init x = 0%nat →
  ∃ l, started (start_devservices e x fresh_shell) = [l] ∧
       ∀ s, s ∈ l ↔
         s = "redis" ∨ s = "postgres"
         ∨ (s = "clickhouse"
            ∧ (NEED_CLICKHOUSE e = "true" ∨ NEED_SNUBA e = "true"))
         ∨ (s = "snuba" ∧ NEED_SNUBA e = "true")
         ∨ (s = "bigtable" ∧ NEED_BIGTABLE e = "true")
         ∨ (s = "chartcuterie" ∧ NEED_CHARTCUTERIE e = "true")
         ∨ (s = "symbolicator" ∧ NEED_SYMBOLICATOR e = "true")
         ∨ (s = "kafka" ∧ NEED_KAFKA e = "true").
Proof.
  intros Hi. rewrite (start_devservices_after_init e x Hi). cbn zeta.
  cbn [started]. eexists. split; [reflexivity|]. intros s.
  rewrite !elem_of_app.
  rewrite (elem_of_optional _ (NEED_CLICKHOUSE e = "true"
                               ∨ NEED_SNUBA e = "true"))
    by (rewrite orb_true_iff, !String.eqb_eq; reflexivity).
  rewrite (elem_of_optional _ (NEED_SNUBA e = "true"))
    by apply String.eqb_eq.
  rewrite (elem_of_optional _ (NEED_BIGTABLE e = "true"))
    by apply String.eqb_eq.
  rewrite (elem_of_optional _ (NEED_CHARTCUTERIE e = "true"))
    by apply String.eqb_eq.
  rewrite (elem_of_optional _ (NEED_SYMBOLICATOR e = "true"))
    by apply String.eqb_eq.
  rewrite (elem_of_optional _ (NEED_KAFKA e = "true"))
    by apply String.eqb_eq.
  rewrite !elem_of_cons, elem_of_nil. tauto.
Qed.

Lemma service_started_iff_requested_witness :
  ∃ l, started (start_devservices codecov_ats_env all_succeed fresh_shell)
       = [l] ∧
       ∀ s, s ∈ l ↔
         s = "redis" ∨ s = "postgres"
         ∨ (s = "clickhouse"
            ∧ (NEED_CLICKHOUSE codecov_ats_env = "true"
               ∨ NEED_SNUBA codecov_ats_env = "true"))
         ∨ (s = "snuba" ∧ NEED_SNUBA codecov_ats_env = "true")
         ∨ (s = "bigtable" ∧ NEED_BIGTABLE codecov_ats_env = "true")
         ∨ (s = "chartcuterie" ∧ NEED_CHARTCUTERIE codecov_ats_env = "true")
         ∨ (s = "symbolicator" ∧ NEED_SYMBOLICATOR codecov_ats_env = "true")
         ∨ (s = "kafka" ∧ NEED_KAFKA codecov_ats_env = "true").
Proof.
  apply (service_started_iff_requested codecov_ats_env all_succeed).
  reflexivity.
Defined.

(** X9: when snuba is requested, clickhouse is started too, and is listed
    before snuba, whatever the clickhouse flag says. *)
Theorem clickhouse_before_snuba (e : DevservicesEnv) (x : Commands) :
  sentry_init x = 0%nat → NEED_SNUBA e = "true" →
  ∃ l1 l2 l3, started (start_devservices e x fresh_shell)
              = [l1 ++ "clickhouse" :: l2 ++ "snuba" :: l3].
Proof.
  intros Hi Hs. rewrite (start_devservices_after_init e x Hi). cbn zeta.
  cbn [started]. apply String.eqb_eq in Hs. rewrite Hs, orb_true_r.
  exists ["redis"; "postgres"], []. eexists. reflexivity.
Qed.

Lemma clickhouse_before_snuba_witness :
  ∃ l1 l2 l3,
    started (start_devservices codecov_ats_env all_succeed fresh_shell)
    = [l1 ++ "clickhouse" :: l2 ++ "snuba" :: l3].
Proof.
  apply (clickhouse_before_snuba codecov_ats_env all_succeed);
    reflexivity.
Defined.

(** X10: the services are passed in one fixed order, starting with redis and
    postgres, and none is passed twice. *)
Theorem services_in_fixed_order (e : DevservicesEnv) (x : Commands) :
  sentry_init x = 0%nat →
  ∃ l, started (start_devservices e x fresh_shell) = [l] ∧
       ["redis"; "postgres"] `prefix_of` l ∧
       l `sublist_of` service_order ∧ NoDup l.
Proof.
  intros Hi. rewrite (start_devservices_after_init e x Hi). cbn zeta.
  cbn [started]. eexists. split; [reflexivity|].
  assert (∀ l : list string, l `sublist_of` service_order → NoDup l) as Hnd.
  { intros l Hl. eapply sublist_NoDup; [|exact Hl].
    apply NoDup_ListNoDup. repeat constructor; cbn; intuition discriminate. }
  assert (["redis"; "postgres"]
      ++ (if String.eqb (NEED_CLICKHOUSE e) "true"
             || String.eqb (NEED_SNUBA e) "true"
          then ["clickhouse"] else [])
      ++ (if String.eqb (NEED_SNUBA e) "true" then ["snuba"] else [])
      ++ (if String.eqb (NEED_BIGTABLE e) "true" then ["bigtable"] else [])
      ++ (if String.eqb (NEED_CHARTCUTERIE e) "true"
          then ["chartcuterie"] else [])
      ++ (if String.eqb (NEED_SYMBOLICATOR e) "true"
          then ["symbolicator"] else [])
      ++ (if String.eqb (NEED_KAFKA e) "true" then ["kafka"] else [])
    `sublist_of` service_order) as Hsub.
  { change service_order
      with (["redis"; "postgres"] ++ ["clickhouse"] ++ ["snuba"]
            ++ ["bigtable"] ++ ["chartcuterie"] ++ ["symbolicator"]
            ++ ["kafka"]).
    repeat (apply sublist_app; [first [reflexivity|apply sublist_optional]|]).
    apply sublist_optional. }
  split; [eexists; reflexivity|]. split; [exact Hsub|exact (Hnd _ Hsub)].
Qed.

Lemma services_in_fixed_order_witness :
  ∃ l, started (start_devservices codecov_ats_env all_succeed fresh_shell)
       = [l] ∧
       ["redis"; "postgres"] `prefix_of` l ∧
       l `sublist_of` service_order ∧ NoDup l.
Proof.
  apply (services_in_fixed_order codecov_ats_env all_succeed).
  reflexivity.
Defined.

(** X11: the bigtable emulator address is exported exactly when bigtable is
    among the services started, that is when its flag is [true]. *)
Theorem bigtable_host_iff_started (e : DevservicesEnv) (x : Commands) :
  sentry_init x = 0%nat →
  let r := start_devservices e x fresh_shell in
  ("BIGTABLE_EMULATOR_HOST=127.0.0.1:8086" ∈ github_env r
   ↔ NEED_BIGTABLE e = "true") ∧
  (∀ l, l ∈ started r → "bigtable" ∈ l ↔ NEED_BIGTABLE e = "true").
Proof.
  intros Hi r. subst r. rewrite (start_devservices_after_init e x Hi).
  cbn zeta. cbn [github_env started]. split.
  - destruct (String.eqb_spec (NEED_BIGTABLE e) "true") as [Hb|Hb];
      destruct (sentry_devservices_up x); cbn [app];
      (split; [intros Hv; try same_name Hv; done|intros H; try done]);
      listed.
  - intros l Hl. apply list_elem_of_singleton in Hl. subst l.
    rewrite !elem_of_app.
    rewrite (elem_of_optional _ (NEED_CLICKHOUSE e = "true"
                                 ∨ NEED_SNUBA e = "true"))
      by (rewrite orb_true_iff, !String.eqb_eq; reflexivity).
    rewrite (elem_of_optional _ (NEED_SNUBA e = "true"))
      by apply String.eqb_eq.
    rewrite (elem_of_optional _ (NEED_BIGTABLE e = "true"))
      by apply String.eqb_eq.
    rewrite (elem_of_optional _ (NEED_CHARTCUTERIE e = "true"))
      by apply String.eqb_eq.
    rewrite (elem_of_optional _ (NEED_SYMBOLICATOR e = "true"))
      by apply String.eqb_eq.
    rewrite (elem_of_optional _ (NEED_KAFKA e = "true"))
      by apply String.eqb_eq.
    rewrite !elem_of_cons, elem_of_nil.
    intuition discriminate.
Qed.

Lemma bigtable_host_iff_started_witness :
  ("BIGTABLE_EMULATOR_HOST=127.0.0.1:8086"
     ∈ github_env (start_devservices codecov_ats_env all_succeed fresh_shell)
   ↔ NEED_BIGTABLE codecov_ats_env = "true") ∧
  (∀ l, l ∈ started (start_devservices codecov_ats_env all_succeed
                                       fresh_shell) →
        "bigtable" ∈ l ↔ NEED_BIGTABLE codecov_ats_env = "true").
Proof.
  apply (bigtable_host_iff_started codecov_ats_env all_succeed).
  reflexivity.
Defined.

(** X12: the step succeeds exactly when its four external commands do, and
    the test server address is exported exactly when [sentry init] and
    [sentry devservices up] have succeeded. *)
Theorem devservices_step_status (e : DevservicesEnv) (x : Commands) :
  let r := start_devservices e x fresh_shell in
  (exit_status r = 0%nat ↔
     sentry_init x = 0%nat ∧ sentry_devservices_up x = 0%nat
     ∧ docker_ps x = 0%nat ∧ cd_workdir x = 0%nat) ∧
  (("DJANGO_LIVE_TEST_SERVER_ADDRESS=" +:+ docker_gateway x) ∈ github_env r
   ↔ sentry_init x = 0%nat ∧ sentry_devservices_up x = 0%nat).
Proof.
  intros r. subst r. destruct (sentry_init x) as [|n] eqn:Hi.
  - rewrite (start_devservices_after_init e x Hi). cbn zeta.
    cbn [github_env exit_status status]. split.
    + destruct (sentry_devservices_up x), (docker_ps x), (cd_workdir x);
        cbn; intuition congruence.
    + destruct (String.eqb (NEED_BIGTABLE e) "true");
        destruct (sentry_devservices_up x); cbn [app];
        (split; [intros Hv; try same_name Hv; done|intros [_ H]; try done]);
        listed.
  - unfold start_devservices, then_. rewrite Hi. cbn. split.
    + intuition congruence.
    + split; [intros Hv; apply elem_of_nil in Hv; done|intros [? _]; done].
Qed.

End SetupSentryProperties.
